(** * The heart particle system of [app.js]

    A shallow embedding of the script's particle class, its animation
    frame, its resize handler and its activation toggle, and the proofs of
    the properties stated about them.

    - JavaScript numbers are kept behind the interface [Number]: every
      definition of the model is written once, over any carrier with the
      arithmetic and comparisons the script uses.  Two carriers are given:
      IEEE binary64 ([float], what the script runs on) and the exact
      rationals ([Q], on which the order arguments are carried out).
    - [Math.random] is a stream of draws with a cursor, [Math.cos],
      [Math.sin] and [Math.PI] are the host's ([MathObject]).
    - The script's four variables ([heartCenter], [particles],
      [animationFrameId], [heartActive]) are fields of [World]; what the
      script does to the canvas and the page is appended to a log of host
      calls.
    - A handler is a computation [Js A]: it returns normally with a value
      and a world, or stops with a [TypeError] (reading a property of
      [undefined]). *)

From Stdlib Require Import List String Bool Arith Lia ZArith QArith Lqa Floats Uint63.
Import ListNotations.
Close Scope Q_scope.

(** ** Numbers *)

(** The arithmetic of the script.  [lit q] is the number a decimal literal
    of the source denotes, given by its exact value [q]. *)
Class Number (num : Type) : Type := {
  lit : Q -> num;
  add : num -> num -> num;
  sub : num -> num -> num;
  mul : num -> num -> num;
  div : num -> num -> num;
  ltb : num -> num -> bool;
  leb : num -> num -> bool;
  truthy : num -> bool;
  Math_max : num -> num -> num
}.

(** The transcendental part of the host's [Math] object. *)
Class MathObject (num : Type) : Type := {
  Math_PI : num;
  Math_cos : num -> num;
  Math_sin : num -> num
}.

Arguments lit {num _} q%_Q.

Declare Scope js_scope.
Delimit Scope js_scope with js.
Infix "+" := add : js_scope.
Infix "-" := sub : js_scope.
Infix "*" := mul : js_scope.
Infix "/" := div : js_scope.
Infix "<?" := ltb : js_scope.
Infix "<=?" := leb : js_scope.

(** Removal and replacement by index, as [splice(i, 1)] and a write through
    [particles[i]] do them. *)
Definition remove_at {A : Type} (i : nat) (l : list A) : list A :=
  firstn i l ++ skipn (S i) l.

Fixpoint replace_at {A : Type} (i : nat) (a : A) (l : list A) : list A :=
  match l, i with
  | [], _ => []
  | _ :: t, O => a :: t
  | h :: t, S j => h :: replace_at j a t
  end.

Section Model.
Context {num : Type} {N : Number num} {M : MathObject num}.
Local Open Scope js_scope.

(** ** Data *)

(** An object [{ x, y }]: [heartCenter] and a particle's [velocity]. *)
Record Vec2 : Type := mkVec2 { vx : num; vy : num }.

(** The fields a [Particle] carries, in the order the constructor sets them. *)
Record Particle : Type := mkParticle {
  x : num;
  y : num;
  size : num;
  color : string;
  alpha : num;
  speed : num;
  velocity : Vec2;
  gravity : num;
  drag : num
}.

(** A [DOMRect], as [getBoundingClientRect] returns it. *)
Record Rect : Type := mkRect {
  left : num;
  top : num;
  width : num;
  height : num
}.

(** What [resizeCanvas] reads from the page. *)
Record Layout : Type := mkLayout {
  devicePixelRatio : num;
  canvasRect : Rect;
  heartRect : Rect
}.

(** The calls the script makes on the canvas, its context and the page. *)
Inductive HostCall : Type :=
| RequestAnimationFrame
| FillStyle (style : string)
| FillCanvas
| Save
| GlobalAlpha (a : num)
| ShadowBlur (b : num)
| ShadowColor (c : string)
| BeginPath
| Arc (cx cy r a0 a1 : num)
| Fill
| Restore
| CanvasSize (w h : num)
| Scale (sx sy : num)
| CanvasStyleSize (w h : num)
| HeartClassAdd (c : string)
| HeartClassRemove (c : string)
| ButtonText (s : string)
| ButtonBackground (s : string)
| ButtonShadow (s : string)
| SetTimeout (ms : num)
| LoadingOpacity (s : string)
| MainClassAdd (c : string)
| LoadingRemove.

(** The script's variables, and the host: the stream [Math.random] draws
    from with the index of the next draw, the number of animation frames
    requested so far, and the log of host calls. *)
Record World : Type := mkWorld {
  heartCenter : Vec2;
  particles : list Particle;
  animationFrameId : option nat;
  heartActive : bool;
  random : nat -> num;
  cursor : nat;
  requested : nat;
  log : list HostCall
}.

Definition set_heartCenter (c : Vec2) (w : World) : World :=
  mkWorld c (particles w) (animationFrameId w) (heartActive w)
          (random w) (cursor w) (requested w) (log w).

Definition set_particles (ps : list Particle) (w : World) : World :=
  mkWorld (heartCenter w) ps (animationFrameId w) (heartActive w)
          (random w) (cursor w) (requested w) (log w).

Definition set_animationFrameId (i : option nat) (w : World) : World :=
  mkWorld (heartCenter w) (particles w) i (heartActive w)
          (random w) (cursor w) (requested w) (log w).

Definition set_heartActive (b : bool) (w : World) : World :=
  mkWorld (heartCenter w) (particles w) (animationFrameId w) b
          (random w) (cursor w) (requested w) (log w).

Definition set_cursor (k : nat) (w : World) : World :=
  mkWorld (heartCenter w) (particles w) (animationFrameId w) (heartActive w)
          (random w) k (requested w) (log w).

Definition set_requested (k : nat) (w : World) : World :=
  mkWorld (heartCenter w) (particles w) (animationFrameId w) (heartActive w)
          (random w) (cursor w) k (log w).

Definition set_log (l : list HostCall) (w : World) : World :=
  mkWorld (heartCenter w) (particles w) (animationFrameId w) (heartActive w)
          (random w) (cursor w) (requested w) l.

(** ** Computations *)

Inductive Outcome (A : Type) : Type :=
| Normal (a : A) (w : World)
| TypeError (w : World).

Arguments Normal {A} a w.
Arguments TypeError {A} w.

Definition Js (A : Type) : Type := World -> Outcome A.

Definition ret {A : Type} (a : A) : Js A := fun w => Normal a w.

Definition bind {A B : Type} (c : Js A) (k : A -> Js B) : Js B :=
  fun w =>
    match c w with
    | Normal a w' => k a w'
    | TypeError w' => TypeError w'
    end.

Notation "v <- c ;; k" := (bind c (fun v => k))
  (at level 61, c at next level, right associativity).
Notation "c ;; k" := (bind c (fun _ => k))
  (at level 61, right associativity).

Definition read {A : Type} (f : World -> A) : Js A := fun w => Normal (f w) w.

Definition write (f : World -> World) : Js unit := fun w => Normal tt (f w).

(** A call on the host, recorded. *)
Definition host (c : HostCall) : Js unit :=
  write (fun w => set_log (log w ++ [c]) w).

Fixpoint hosts (cs : list HostCall) : Js unit :=
  match cs with
  | [] => ret tt
  | c :: cs' => host c ;; hosts cs'
  end.

(** [Math.random()]: the next draw of the stream. *)
Definition Math_random : Js num :=
  fun w => Normal (random w (cursor w)) (set_cursor (S (cursor w)) w).

(** [requestAnimationFrame(animateParticles)]: the host hands out the
    handles 1, 2, 3, ... *)
Definition requestAnimationFrame : Js nat :=
  host RequestAnimationFrame ;;
  k <- read requested ;;
  write (set_requested (S k)) ;;
  ret (S k).

(** [particles[i]], of which a property is read next: [undefined] there is
    a [TypeError]. *)
Definition particle_at (i : nat) : Js Particle :=
  fun w =>
    match nth_error (particles w) i with
    | Some p => Normal p w
    | None => TypeError w
    end.

(** The object at [particles[i]] after a mutation. *)
Definition store_at (i : nat) (p : Particle) : Js unit :=
  write (fun w => set_particles (replace_at i p (particles w)) w).

(** [particles.splice(i, 1)] *)
Definition splice (i : nat) : Js unit :=
  write (fun w => set_particles (remove_at i (particles w)) w).

(** [particles.push(p)] *)
Definition push (p : Particle) : Js unit :=
  write (fun w => set_particles (particles w ++ [p]) w).

(** ** The Particle class *)

Definition rose : string := "rgba(255, 107, 157, 1)".
Definition gold : string := "rgba(255, 215, 0, 1)".

(** [new Particle(x, y, color)]: three draws, for the size, the speed and
    the angle, in this order. *)
Definition Particle_new (x0 y0 : num) (c : string) : Js Particle :=
  r_size <- Math_random ;;
  let size0 := r_size * lit 1.5 + lit 0.5 in
  r_speed <- Math_random ;;
  let speed0 := r_speed * lit 0.4 + lit 0.1 in
  r_angle <- Math_random ;;
  let angle := r_angle * Math_PI * lit 2 in
  ret {| x := x0; y := y0; size := size0; color := c; alpha := lit 1;
         speed := speed0;
         velocity := {| vx := Math_cos angle * speed0 * lit 2;
                        vy := Math_sin angle * speed0 * lit 2 |};
         gravity := lit 0.003; drag := lit 0.99 |}.

Definition set_velocity (v : Vec2) (p : Particle) : Particle :=
  mkParticle (x p) (y p) (size p) (color p) (alpha p) (speed p) v
             (gravity p) (drag p).

Definition set_x (v : num) (p : Particle) : Particle :=
  mkParticle v (y p) (size p) (color p) (alpha p) (speed p) (velocity p)
             (gravity p) (drag p).

Definition set_y (v : num) (p : Particle) : Particle :=
  mkParticle (x p) v (size p) (color p) (alpha p) (speed p) (velocity p)
             (gravity p) (drag p).

Definition set_alpha (v : num) (p : Particle) : Particle :=
  mkParticle (x p) (y p) (size p) (color p) v (speed p) (velocity p)
             (gravity p) (drag p).

Definition set_size (v : num) (p : Particle) : Particle :=
  mkParticle (x p) (y p) v (color p) (alpha p) (speed p) (velocity p)
             (gravity p) (drag p).

(** [update()], one assignment after the other. *)
Definition update (p : Particle) : Particle :=
  let p := set_velocity (mkVec2 (vx (velocity p) * drag p) (vy (velocity p))) p in
  let p := set_velocity (mkVec2 (vx (velocity p)) (vy (velocity p) * drag p)) p in
  let p := set_velocity (mkVec2 (vx (velocity p)) (vy (velocity p) + gravity p)) p in
  let p := set_x (x p + vx (velocity p)) p in
  let p := set_y (y p + vy (velocity p)) p in
  let p := set_alpha (alpha p - lit 0.005) p in
  let p := set_size (size p * lit 0.995) p in
  p.

(** [draw()]: the context calls, in order. *)
Definition draw_calls (p : Particle) : list HostCall :=
  [ Save;
    GlobalAlpha (Math_max (lit 0) (alpha p));
    ShadowBlur (lit 5);
    ShadowColor (color p);
    FillStyle (color p);
    BeginPath;
    Arc (x p) (y p) (size p) (lit 0) (Math_PI * lit 2);
    Fill;
    Restore ].

Definition draw (p : Particle) : Js unit := hosts (draw_calls p).

(** ** The animation frame *)

(** The iterations [i = n - 1, ..., 0] of the loop of the active branch. *)
Fixpoint active_loop (n : nat) : Js unit :=
  match n with
  | O => ret tt
  | S i =>
      p <- particle_at i ;;
      let p' := update p in
      store_at i p' ;;
      draw p' ;;
      (if (alpha p' <=? lit 0) || (size p' <=? lit 0.1)
       then splice i else ret tt) ;;
      active_loop i
  end.

(** The iterations [i = n - 1, ..., 0] of the loop of the inactive branch;
    every statement reads [particles[i]] anew. *)
Fixpoint drain_loop (n : nat) : Js unit :=
  match n with
  | O => ret tt
  | S i =>
      p <- particle_at i ;;
      store_at i (set_alpha (alpha p - lit 0.01) p) ;;
      p <- particle_at i ;;
      store_at i (update p) ;;
      p <- particle_at i ;;
      draw p ;;
      p <- particle_at i ;;
      (if alpha p <=? lit 0 then splice i else ret tt) ;;
      drain_loop i
  end.

Definition animateParticles : Js unit :=
  id <- requestAnimationFrame ;;
  write (set_animationFrameId (Some id)) ;;
  host (FillStyle "rgba(28, 28, 60, 0.05)") ;;
  host FillCanvas ;;
  active <- read heartActive ;;
  if active then
    r <- Math_random ;;
    (if r <? lit 0.6 then
       r' <- Math_random ;;
       let particleColor := if r' <? lit 0.9 then rose else gold in
       c <- read heartCenter ;;
       newParticle <- Particle_new (vx c) (vy c) particleColor ;;
       push newParticle
     else ret tt) ;;
    n <- read (fun w => List.length (particles w)) ;;
    active_loop n
  else
    n <- read (fun w => List.length (particles w)) ;;
    drain_loop n.

(** ** Resizing *)

Definition resizeCanvas (l : Layout) : Js unit :=
  let dpr := if truthy (devicePixelRatio l) then devicePixelRatio l else lit 1 in
  let rect := canvasRect l in
  host (CanvasSize (width rect * dpr) (height rect * dpr)) ;;
  host (Scale dpr dpr) ;;
  host (CanvasStyleSize (width rect) (height rect)) ;;
  let heartRect := heartRect l in
  c <- read heartCenter ;;
  write (set_heartCenter (mkVec2 (left heartRect + width heartRect / lit 2) (vy c))) ;;
  c <- read heartCenter ;;
  write (set_heartCenter (mkVec2 (vx c) (top heartRect + height heartRect / lit 2))).

(** ** Activation *)

(** The iterations of [for (let i = 0; i < 80; i++)] that remain. *)
Fixpoint burst (n : nat) : Js unit :=
  match n with
  | O => ret tt
  | S k =>
      r <- Math_random ;;
      let particleColor := if r <? lit 0.7 then rose else gold in
      c <- read heartCenter ;;
      p <- Particle_new (vx c) (vy c) particleColor ;;
      push p ;;
      burst k
  end.

Definition activateHeart (l : Layout) : Js unit :=
  active <- read heartActive ;;
  if negb active then
    write (set_heartActive true) ;;
    host (HeartClassAdd "heart-active") ;;
    host (ButtonText "ðŸ’– The Heart Beats for You! ðŸ’–") ;;
    resizeCanvas l ;;
    burst 80 ;;
    host (SetTimeout (lit 3000))
  else
    write (set_heartActive false) ;;
    host (HeartClassRemove "heart-active") ;;
    host (ButtonText "âœ¨ Reveal The Heart of The Message âœ¨") ;;
    host (ButtonBackground "linear-gradient(45deg, #a77dff, #6236ff)") ;;
    host (ButtonShadow "0 10px 30px rgba(98, 54, 255, 0.5)").

(** The callback [activateHeart] schedules after 3000 ms. *)
Definition settleButton : Js unit :=
  host (ButtonText "Click to Hide The Magic") ;;
  host (ButtonBackground "linear-gradient(45deg, #cc4477, #aa2255)") ;;
  host (ButtonShadow "0 10px 30px rgba(170, 34, 85, 0.5)").

(** ** Initialization and the events of the page *)

(** The listener of [load], and the two callbacks it schedules. *)
Definition onLoad (l : Layout) : Js unit :=
  resizeCanvas l ;;
  animateParticles ;;
  host (SetTimeout (lit 2000)).

Definition fadeLoadingScreen : Js unit :=
  host (LoadingOpacity "0") ;;
  host (MainClassAdd "fade-in") ;;
  host (SetTimeout (lit 1000)).

Definition removeLoadingScreen : Js unit := host LoadingRemove.

Inductive Event : Type :=
| Load (l : Layout)
| Frame
| Resize (l : Layout)
| Click (l : Layout)
| ButtonSettles
| LoadingFades
| LoadingRemoved.

Definition handle (e : Event) : Js unit :=
  match e with
  | Load l => onLoad l
  | Frame => animateParticles
  | Resize l => resizeCanvas l
  | Click l => activateHeart l
  | ButtonSettles => settleButton
  | LoadingFades => fadeLoadingScreen
  | LoadingRemoved => removeLoadingScreen
  end.

Fixpoint run (es : list Event) : Js unit :=
  match es with
  | [] => ret tt
  | e :: es' => handle e ;; run es'
  end.

(** [k] animation frames in a row. *)
Fixpoint frames (k : nat) : Js unit :=
  match k with
  | O => ret tt
  | S k' => animateParticles ;; frames k'
  end.

(** The world once the script's top level has run, before any event. *)
Definition init (rnd : nat -> num) : World :=
  mkWorld (mkVec2 (lit 0) (lit 0)) [] None false rnd 0 0 [].

(** The world an outcome leaves. *)
Definition world_of {A : Type} (o : Outcome A) : World :=
  match o with
  | Normal _ w => w
  | TypeError w => w
  end.

(** [Math.random] returns a number in [0, 1). *)
Definition draws_in_range (rnd : nat -> num) : Prop :=
  forall k, (lit 0 <=? rnd k) = true /\ (rnd k <? lit 1) = true.

(** ** The handlers in closed form *)

(** The particle [new Particle(x0, y0, c)] builds from the draws [k],
    [k + 1] and [k + 2] of the stream. *)
Definition fresh (rnd : nat -> num) (k : nat) (x0 y0 : num) (c : string) : Particle :=
  let size0 := rnd k * lit 1.5 + lit 0.5 in
  let speed0 := rnd (S k) * lit 0.4 + lit 0.1 in
  let angle := rnd (S (S k)) * Math_PI * lit 2 in
  mkParticle x0 y0 size0 c (lit 1) speed0
             (mkVec2 (Math_cos angle * speed0 * lit 2) (Math_sin angle * speed0 * lit 2))
             (lit 0.003) (lit 0.99).

(** One of the two colours, by a draw against a threshold. *)
Definition pick (r threshold : num) : string :=
  if r <? threshold then rose else gold.

(** The particles of a burst of [n], the first draw being [k]: four draws
    each, the colour first. *)
Fixpoint burst_particles (rnd : nat -> num) (k : nat) (c : Vec2) (n : nat) : list Particle :=
  match n with
  | O => []
  | S n' => fresh rnd (S k) (vx c) (vy c) (pick (rnd k) (lit 0.7))
            :: burst_particles rnd (4 + k) c n'
  end.

(** What a frame spawns when the heart is active, the first draw being [k]. *)
Definition spawned (rnd : nat -> num) (k : nat) (c : Vec2) : list Particle :=
  if rnd k <? lit 0.6
  then [fresh rnd (S (S k)) (vx c) (vy c) (pick (rnd (S k)) (lit 0.9))]
  else [].

(** The draws a frame of the active heart uses. *)
Definition spawn_draws (rnd : nat -> num) (k : nat) : nat :=
  if rnd k <? lit 0.6 then 5 else 1.

(** The tests that end a particle, in the active and the inactive branch. *)
Definition culled (p : Particle) : bool :=
  (alpha p <=? lit 0) || (size p <=? lit 0.1).

Definition expired (p : Particle) : bool := alpha p <=? lit 0.

(** The extra fade of the inactive branch, and its whole step. *)
Definition fade (p : Particle) : Particle := set_alpha (alpha p - lit 0.01) p.

Definition drain (p : Particle) : Particle := update (fade p).

(** The centre of the anchor's rectangle. *)
Definition center (r : Rect) : Vec2 :=
  mkVec2 (left r + width r / lit 2) (top r + height r / lit 2).

(** The particles a frame spawns, the step it applies to every particle
    and the test by which it removes one, by the state of the heart. *)
Definition born (w : World) : list Particle :=
  if heartActive w then spawned (random w) (cursor w) (heartCenter w) else [].

Definition advance (w : World) : Particle -> Particle :=
  if heartActive w then update else drain.

Definition ended (w : World) : Particle -> bool :=
  if heartActive w then culled else expired.

Definition advanced (w : World) : list Particle :=
  map (advance w) (particles w ++ born w).

(** The world a frame, a resize and a click lead to. *)
Definition after_frame (w : World) : World :=
  mkWorld (heartCenter w)
          (filter (fun p => negb (ended w p)) (advanced w))
          (Some (S (requested w)))
          (heartActive w)
          (random w)
          (if heartActive w then spawn_draws (random w) (cursor w) + cursor w
           else cursor w)
          (S (requested w))
          (log w ++ [RequestAnimationFrame;
                     FillStyle "rgba(28, 28, 60, 0.05)";
                     FillCanvas]
                 ++ flat_map draw_calls (rev (advanced w))).

Definition resize_calls (l : Layout) : list HostCall :=
  let dpr := if truthy (devicePixelRatio l) then devicePixelRatio l else lit 1 in
  [CanvasSize (width (canvasRect l) * dpr) (height (canvasRect l) * dpr);
   Scale dpr dpr;
   CanvasStyleSize (width (canvasRect l)) (height (canvasRect l))].

Definition after_resize (l : Layout) (w : World) : World :=
  set_heartCenter (center (heartRect l)) (set_log (log w ++ resize_calls l) w).

Definition off_calls : list HostCall :=
  [HeartClassRemove "heart-active";
   ButtonText "âœ¨ Reveal The Heart of The Message âœ¨";
   ButtonBackground "linear-gradient(45deg, #a77dff, #6236ff)";
   ButtonShadow "0 10px 30px rgba(98, 54, 255, 0.5)"].

Definition on_calls (l : Layout) : list HostCall :=
  [HeartClassAdd "heart-active"; ButtonText "ðŸ’– The Heart Beats for You! ðŸ’–"]
  ++ resize_calls l ++ [SetTimeout (lit 3000)].

Definition after_click (l : Layout) (w : World) : World :=
  if heartActive w
  then set_heartActive false (set_log (log w ++ off_calls) w)
  else mkWorld (center (heartRect l))
               (particles w
                ++ burst_particles (random w) (cursor w) (center (heartRect l)) 80)
               (animationFrameId w)
               true
               (random w)
               (320 + cursor w)
               (requested w)
               (log w ++ on_calls l).

End Model.

Arguments Vec2 num : clear implicits.
Arguments Particle num : clear implicits.
Arguments Rect num : clear implicits.
Arguments Layout num : clear implicits.
Arguments HostCall num : clear implicits.
Arguments World num : clear implicits.
Arguments Event num : clear implicits.
Arguments Normal {num A} a w.
Arguments TypeError {num A} w.

(** ** The two carriers *)

(** *** IEEE binary64 *)

(** An integer below 2^63 in magnitude as a float. *)
Definition Z2F (z : Z) : float :=
  if (z <? 0)%Z
  then PrimFloat.opp (PrimFloat.of_uint63 (Uint63.of_Z (- z)))
  else PrimFloat.of_uint63 (Uint63.of_Z z).

(** A decimal literal is the float nearest to its value: numerator and
    denominator are exact, and the division rounds once. *)
Definition float_lit (q : Q) : float :=
  PrimFloat.div (Z2F (Qnum q)) (Z2F (Zpos (Qden q))).

(** [ToBoolean]: [0], [-0] and [NaN] are false. *)
Definition float_truthy (f : float) : bool :=
  negb (PrimFloat.eqb f PrimFloat.zero) && PrimFloat.eqb f f.

(** [Math.max] of two numbers: [NaN] if either is, and [+0] above [-0]. *)
Definition float_max (a b : float) : float :=
  if PrimFloat.is_nan a || PrimFloat.is_nan b then PrimFloat.nan
  else if PrimFloat.eqb a b
       then (if PrimFloat.eqb a PrimFloat.zero then PrimFloat.add a b else a)
       else if PrimFloat.ltb a b then b else a.

#[export] Instance float_Number : Number float := {|
  lit := float_lit;
  add := PrimFloat.add;
  sub := PrimFloat.sub;
  mul := PrimFloat.mul;
  div := PrimFloat.div;
  ltb := PrimFloat.ltb;
  leb := PrimFloat.leb;
  truthy := float_truthy;
  Math_max := float_max
|}.

(** *** Exact rationals *)

#[export] Instance Q_Number : Number Q := {|
  lit := fun q => q;
  add := Qplus;
  sub := Qminus;
  mul := Qmult;
  div := Qdiv;
  ltb := fun a b => negb (Qle_bool b a);
  leb := Qle_bool;
  truthy := fun q => negb (Qeq_bool q 0);
  Math_max := fun a b => if Qle_bool a b then b else a
|}.

(** *** A [Math] object to run the model with

    Cosine and sine by their power series up to the term of degree 40,
    in Horner form; exact at 0.  The theorems below hold for every
    [MathObject]; this one serves where a closed run is evaluated. *)
Section Series.
Context {num : Type} {N : Number num}.
Local Open Scope js_scope.

Fixpoint horner (n : nat) (j : Z) (x2 : num) : num :=
  match n with
  | O => lit 1
  | S n' => lit 1 - x2 / lit (inject_Z (j * (j + 1))) * horner n' (j + 2) x2
  end.

Definition cos_series (a : num) : num := horner 20 1 (a * a).

Definition sin_series (a : num) : num := a * horner 20 2 (a * a).

Definition series_Math : MathObject num := {|
  Math_PI := lit 3.141592653589793;
  Math_cos := cos_series;
  Math_sin := sin_series
|}.

End Series.

(** ** Events in closed form *)

Section Closed.
Context {num : Type} {N : Number num} {M : MathObject num}.

(** The world an event leads to. *)
Definition after_event (e : Event num) (w : World num) : World num :=
  match e with
  | Load l =>
      let w' := after_frame (after_resize l w) in
      set_log (log w' ++ [SetTimeout (lit 2000)]) w'
  | Frame => after_frame w
  | Resize l => after_resize l w
  | Click l => after_click l w
  | ButtonSettles =>
      set_log (log w ++ [ButtonText "Click to Hide The Magic";
                         ButtonBackground "linear-gradient(45deg, #cc4477, #aa2255)";
                         ButtonShadow "0 10px 30px rgba(170, 34, 85, 0.5)"]) w
  | LoadingFades =>
      set_log (log w ++ [LoadingOpacity "0"; MainClassAdd "fade-in";
                         SetTimeout (lit 1000)]) w
  | LoadingRemoved => set_log (log w ++ [LoadingRemove]) w
  end.

(** The events that run a frame. *)
Definition runs_frame (e : Event num) : bool :=
  match e with
  | Load _ | Frame => true
  | _ => false
  end.

(** What the page builds. *)
Definition well_made (p : Particle num) : Prop :=
  gravity p = lit 0.003 /\ drag p = lit 0.99 /\ (color p = rose \/ color p = gold).

End Closed.

(** ** Bounds on exact numbers *)

(** The least radius and the greatest opacity a particle can have [n]
    frames after its construction, and the greatest opacity after [n]
    frames of the inactive heart. *)
Fixpoint shrunk (n : nat) : Q :=
  match n with
  | O => 0.5
  | S k => shrunk k * 0.995
  end.

Fixpoint faded (n : nat) : Q :=
  match n with
  | O => 1
  | S k => faded k - 0.005
  end.

Fixpoint dimmed (n : nat) : Q :=
  match n with
  | O => 1
  | S k => dimmed k - 0.01 - 0.005
  end.

(** A particle no smaller and no more opaque than some age allows. *)
Definition young (p : Particle Q) : Prop :=
  exists n, (shrunk n <= size p)%Q /\ (alpha p <= faded n)%Q.

(** What the canvas accepts from [draw]: an opacity in [0, 1] and a
    positive radius (a negative one makes [arc] throw). *)
Definition safe_call (c : HostCall Q) : Prop :=
  match c with
  | GlobalAlpha a => (0 <= a <= 1)%Q
  | Arc _ _ r _ _ => (0 < r)%Q
  | _ => True
  end.

(** ** Closed runs *)

(** A page in binary64: the anchor at (100, 50), 40 by 40, every draw 0.5. *)
Definition page : Layout float :=
  mkLayout (lit 2) (mkRect (lit 0) (lit 0) (lit 800) (lit 600))
           (mkRect (lit 100) (lit 50) (lit 40) (lit 40)).

Definition halves (k : nat) : float := lit 0.5.

(** Loaded and not yet clicked; clicked and one frame later; and clicked
    again after that frame. *)
Definition loaded : World float :=
  world_of (@run float _ series_Math [Load page] (init halves)).

Definition glowing : World float :=
  world_of (@run float _ series_Math [Load page; Click page; Frame] (init halves)).

Definition draining : World float :=
  world_of (@run float _ series_Math [Load page; Click page; Frame; Click page]
                 (init halves)).

(** The same page on exact numbers, every draw 0. *)
Definition exact_page : Layout Q :=
  mkLayout 2%Q (mkRect 0 0 800 600)%Q (mkRect 100 50 40 40)%Q.

Definition noughts (k : nat) : Q := 0%Q.

Definition clicks : list (Event Q) :=
  [Load exact_page; Click exact_page; Frame; Click exact_page].

Definition exact_draining : World Q :=
  world_of (@run Q _ series_Math clicks (init noughts)).

(** A collection the page never builds: one particle, smaller than the
    threshold and half opaque, under an inactive heart. *)
Definition speck : Particle float :=
  mkParticle (lit 0) (lit 0) (lit 0.05) rose (lit 0.5) (lit 0.1)
             (mkVec2 (lit 0) (lit 0)) (lit 0.003) (lit 0.99).

Definition dust : World float :=
  mkWorld (mkVec2 (lit 0) (lit 0)) [speck] None false halves 0 0 [].

(** * Proofs *)

(** ** Lists by index *)

Lemma nth_error_middle {A : Type} (l l2 : list A) (a : A) :
  nth_error ((l ++ [a]) ++ l2) (List.length l) = Some a.
Proof.
  rewrite <- app_assoc. simpl.
  induction l as [|h t IH]; simpl; [reflexivity | exact IH].
Qed.

Lemma replace_at_middle {A : Type} (l l2 : list A) (a b : A) :
  replace_at (List.length l) b ((l ++ [a]) ++ l2) = (l ++ [b]) ++ l2.
Proof.
  induction l as [|h t IH]; simpl; [reflexivity | now rewrite IH].
Qed.

Lemma remove_at_middle {A : Type} (l l2 : list A) (a : A) :
  remove_at (List.length l) ((l ++ [a]) ++ l2) = l ++ l2.
Proof.
  unfold remove_at. rewrite <- app_assoc. simpl.
  induction l as [|h t IH]; simpl; [reflexivity | now rewrite IH].
Qed.

(** ** The handlers run to their closed forms *)

(** Runs the plain statements of a handler on a world given by its fields. *)
Ltac run_prefix :=
  cbv [bind requestAnimationFrame host write read ret Math_random push
       Particle_new fresh pick
       set_log set_requested set_animationFrameId set_cursor set_particles
       set_heartCenter set_heartActive
       particles heartCenter animationFrameId heartActive random cursor
       requested log].

Section Runs.
Context {num : Type} {N : Number num} {M : MathObject num}.
Local Open Scope js_scope.

Lemma hosts_run (cs : list (HostCall num)) (w : World num) :
  hosts cs w = Normal tt (set_log (log w ++ cs) w).
Proof.
  revert w. induction cs as [|c cs IH]; intro w.
  - destruct w; simpl. unfold ret, set_log; simpl. now rewrite app_nil_r.
  - simpl. unfold bind, host, write. rewrite IH.
    destruct w; unfold set_log; simpl. now rewrite <- app_assoc.
Qed.

Lemma Particle_new_run (x0 y0 : num) (c : string) (w : World num) :
  Particle_new x0 y0 c w
  = Normal (fresh (random w) (cursor w) x0 y0 c) (set_cursor (3 + cursor w) w).
Proof. reflexivity. Qed.

Lemma burst_run (n : nat) (w : World num) :
  burst n w
  = Normal tt
      (set_cursor (4 * n + cursor w)
         (set_particles
            (particles w ++ burst_particles (random w) (cursor w) (heartCenter w) n)
            w)).
Proof.
  revert w. induction n as [|n IH]; intro w.
  - destruct w; simpl. unfold ret, set_cursor, set_particles; simpl.
    now rewrite app_nil_r.
  - cbn [burst]. unfold bind at 1. unfold Math_random at 1.
    unfold bind at 1. unfold read at 1.
    unfold bind at 1. rewrite Particle_new_run.
    unfold bind at 1. unfold push, write at 1.
    rewrite IH. destruct w; unfold set_cursor, set_particles; simpl.
    rewrite <- app_assoc. simpl. do 3 f_equal. lia.
Qed.


(** One statement of a loop body, on a world given by its fields. *)

Lemma bind_particle_at {A : Type} (i : nat) (k : Particle num -> Js A)
      (p : Particle num) c ps a h r cu q lg :
  nth_error ps i = Some p ->
  bind (particle_at i) k (mkWorld c ps a h r cu q lg)
  = k p (mkWorld c ps a h r cu q lg).
Proof.
  intro H. unfold bind, particle_at. cbn [particles]. now rewrite H.
Qed.

Lemma bind_store_at {A : Type} (i : nat) (p : Particle num) (k : unit -> Js A)
      c ps a h r cu q lg :
  bind (store_at i p) k (mkWorld c ps a h r cu q lg)
  = k tt (mkWorld c (replace_at i p ps) a h r cu q lg).
Proof. reflexivity. Qed.

Lemma bind_splice {A : Type} (i : nat) (k : unit -> Js A)
      (c : Vec2 num) ps a h r cu q lg :
  bind (splice i) k (mkWorld c ps a h r cu q lg)
  = k tt (mkWorld c (remove_at i ps) a h r cu q lg).
Proof. reflexivity. Qed.

Lemma bind_draw {A : Type} (p : Particle num) (k : unit -> Js A)
      c ps a h r cu q lg :
  bind (draw p) k (mkWorld c ps a h r cu q lg)
  = k tt (mkWorld c ps a h r cu q (lg ++ draw_calls p)).
Proof. unfold bind, draw. now rewrite hosts_run. Qed.

Lemma bind_ret {A B : Type} (a : A) (k : A -> Js B) (w : World num) :
  bind (ret a) k w = k a w.
Proof. reflexivity. Qed.

Lemma active_loop_run (l1 : list (Particle num)) :
  forall l2 c a h r k q lg,
    active_loop (List.length l1) (mkWorld c (l1 ++ l2) a h r k q lg)
    = Normal tt
        (mkWorld c (filter (fun p => negb (culled p)) (map update l1) ++ l2)
                 a h r k q
                 (lg ++ flat_map draw_calls (rev (map update l1)))).
Proof.
  induction l1 as [|p l IH] using rev_ind; intros l2 c a h r k q lg.
  - simpl. unfold ret. now rewrite app_nil_r.
  - rewrite length_app, Nat.add_1_r. cbn [active_loop].
    rewrite (bind_particle_at _ _ p) by apply nth_error_middle.
    rewrite bind_store_at, replace_at_middle, bind_draw.
    rewrite map_app, rev_app_distr, filter_app. cbn [map rev app flat_map filter].
    rewrite (app_assoc lg).
    fold (culled (update p)).
    destruct (culled (update p)); cbn [negb].
    + rewrite bind_splice, remove_at_middle, IH, app_nil_r. reflexivity.
    + rewrite bind_ret, <- (app_assoc l), <- (app_assoc (filter _ _)). cbn [app].
      rewrite IH. reflexivity.
Qed.

Lemma drain_loop_run (l1 : list (Particle num)) :
  forall l2 c a h r k q lg,
    drain_loop (List.length l1) (mkWorld c (l1 ++ l2) a h r k q lg)
    = Normal tt
        (mkWorld c (filter (fun p => negb (expired p)) (map drain l1) ++ l2)
                 a h r k q
                 (lg ++ flat_map draw_calls (rev (map drain l1)))).
Proof.
  induction l1 as [|p l IH] using rev_ind; intros l2 c a h r k q lg.
  - simpl. unfold ret. now rewrite app_nil_r.
  - rewrite length_app, Nat.add_1_r. cbn [drain_loop].
    rewrite (bind_particle_at _ _ p) by apply nth_error_middle.
    rewrite bind_store_at, replace_at_middle.
    fold (fade p).
    rewrite (bind_particle_at _ _ (fade p)) by apply nth_error_middle.
    rewrite bind_store_at, replace_at_middle.
    fold (drain p).
    rewrite (bind_particle_at _ _ (drain p)) by apply nth_error_middle.
    rewrite bind_draw.
    rewrite (bind_particle_at _ _ (drain p)) by apply nth_error_middle.
    rewrite map_app, rev_app_distr, filter_app. cbn [map rev app flat_map filter].
    rewrite (app_assoc lg).
    fold (expired (drain p)).
    destruct (expired (drain p)); cbn [negb].
    + rewrite bind_splice, remove_at_middle, IH, app_nil_r. reflexivity.
    + rewrite bind_ret, <- (app_assoc l), <- (app_assoc (filter _ _)). cbn [app].
      rewrite IH. reflexivity.
Qed.

Lemma active_loop_all (l : list (Particle num)) c a h r k q lg :
  active_loop (List.length l) (mkWorld c l a h r k q lg)
  = Normal tt
      (mkWorld c (filter (fun p => negb (culled p)) (map update l)) a h r k q
               (lg ++ flat_map draw_calls (rev (map update l)))).
Proof.
  pose proof (active_loop_run l [] c a h r k q lg) as H.
  rewrite !app_nil_r in H. exact H.
Qed.

Lemma drain_loop_all (l : list (Particle num)) c a h r k q lg :
  drain_loop (List.length l) (mkWorld c l a h r k q lg)
  = Normal tt
      (mkWorld c (filter (fun p => negb (expired p)) (map drain l)) a h r k q
               (lg ++ flat_map draw_calls (rev (map drain l)))).
Proof.
  pose proof (drain_loop_run l [] c a h r k q lg) as H.
  rewrite !app_nil_r in H. exact H.
Qed.

Lemma animateParticles_run (w : World num) :
  animateParticles w = Normal tt (after_frame w).
Proof.
  destruct w as [c ps a h r k q lg].
  unfold animateParticles, after_frame, advanced, born, advance, ended.
  destruct h.
  - unfold spawned, spawn_draws. run_prefix.
    destruct (r k <? lit 0.6) eqn:Hr.
    + rewrite active_loop_all, <- !app_assoc. reflexivity.
    + rewrite app_nil_r, active_loop_all, <- !app_assoc. reflexivity.
  - run_prefix.
    rewrite app_nil_r, drain_loop_all, <- !app_assoc. reflexivity.
Qed.

Lemma resizeCanvas_run (l : Layout num) (w : World num) :
  resizeCanvas l w = Normal tt (after_resize l w).
Proof.
  destruct w as [c ps a h r k q lg].
  unfold resizeCanvas, after_resize, resize_calls, center. run_prefix.
  rewrite <- !app_assoc. reflexivity.
Qed.

Lemma bind_run {A B : Type} (c : Js A) (k : A -> Js B) (w w' : World num) (a : A) :
  c w = Normal a w' -> bind c k w = k a w'.
Proof. intro H. unfold bind. now rewrite H. Qed.

Lemma bind_write {A : Type} (f : World num -> World num) (k : unit -> Js A)
      (w : World num) :
  bind (write f) k w = k tt (f w).
Proof. reflexivity. Qed.

Lemma bind_host {A : Type} (c : HostCall num) (k : unit -> Js A) (w : World num) :
  bind (host c) k w = k tt (set_log (log w ++ [c]) w).
Proof. reflexivity. Qed.

Lemma bind_read {A B : Type} (f : World num -> A) (k : A -> Js B) (w : World num) :
  bind (read f) k w = k (f w) w.
Proof. reflexivity. Qed.

Lemma activateHeart_run (l : Layout num) (w : World num) :
  activateHeart l w = Normal tt (after_click l w).
Proof.
  destruct w as [c ps a h r k q lg].
  unfold activateHeart, after_click.
  rewrite bind_read. cbn [heartActive].
  destruct h; cbn [negb].
  - unfold off_calls. run_prefix. rewrite <- !app_assoc. reflexivity.
  - rewrite bind_write, !bind_host.
    rewrite (bind_run _ _ _ _ _ (resizeCanvas_run _ _)).
    rewrite (bind_run _ _ _ _ _ (burst_run _ _)).
    unfold on_calls, after_resize, resize_calls. run_prefix.
    rewrite <- !app_assoc. reflexivity.
Qed.

End Runs.

(** ** Claims that hold on every carrier *)

Section Claims.
Context {num : Type} {N : Number num} {M : MathObject num}.
Local Open Scope js_scope.

Lemma burst_particles_length (rnd : nat -> num) (k : nat) (c : Vec2 num) (n : nat) :
  List.length (burst_particles rnd k c n) = n.
Proof.
  revert k. induction n as [|n IH]; intro k; simpl; [reflexivity | now rewrite IH].
Qed.

Lemma burst_particles_nth (rnd : nat -> num) (c : Vec2 num) (n : nat) :
  forall k i, (i < n)%nat ->
    nth_error (burst_particles rnd k c n) i
    = Some (fresh rnd (k + 4 * i + 1) (vx c) (vy c) (pick (rnd (k + 4 * i)%nat) (lit 0.7))).
Proof.
  induction n as [|n IH]; intros k i Hi; [lia|].
  destruct i as [|i].
  - cbn [burst_particles nth_error]. rewrite Nat.mul_0_r, Nat.add_0_r, Nat.add_1_r.
    reflexivity.
  - cbn [burst_particles nth_error]. rewrite IH by lia.
    replace (4 + k + 4 * i)%nat with (k + 4 * S i)%nat by lia. reflexivity.
Qed.

(** C3: [update] multiplies both velocity components by the drag, adds the
    gravity to the vertical one, moves the position by the velocity so
    obtained, takes 0.005 off the opacity and multiplies the radius by
    0.995; a frame applies it to every particle of the collection (in the
    inactive branch after the extra fade, which touches the opacity only). *)
Theorem C3_update_in_order (p : Particle num) (w : World num) :
  let v := mkVec2 (vx (velocity p) * drag p)
                  (vy (velocity p) * drag p + gravity p) in
  update p
  = mkParticle (x p + vx v) (y p + vy v) (size p * lit 0.995) (color p)
               (alpha p - lit 0.005) (speed p) v (gravity p) (drag p)
  /\ fade p
     = mkParticle (x p) (y p) (size p) (color p) (alpha p - lit 0.01) (speed p)
                  (velocity p) (gravity p) (drag p)
  /\ exists w',
       animateParticles w = Normal tt w'
       /\ particles w'
          = filter (fun q => negb (ended w q))
                   (map (if heartActive w then update
                         else fun q => update (fade q))
                        (particles w ++ born w)).
Proof.
  intro v. split; [reflexivity|]. split; [reflexivity|].
  exists (after_frame w). split; [apply animateParticles_run|].
  unfold after_frame, advanced, advance. cbn [particles].
  destruct (heartActive w); reflexivity.
Qed.

(** C2, as amended: in the inactive branch a frame takes 0.01 off the
    opacity of every particle and then, through [update], a further 0.005;
    in the active branch it takes the 0.005 of [update] only. *)
Theorem C2_drain_fades_twice (w : World num) :
  exists w',
    animateParticles w = Normal tt w'
    /\ (heartActive w = false ->
        particles w'
        = filter (fun q => negb (alpha q <=? lit 0)) (map drain (particles w))
        /\ forall p, alpha (drain p) = (alpha p - lit 0.01) - lit 0.005)
    /\ (heartActive w = true ->
        particles w'
        = filter (fun q => negb ((alpha q <=? lit 0) || (size q <=? lit 0.1)))
                 (map update (particles w ++ born w))
        /\ forall p, alpha (update p) = alpha p - lit 0.005).
Proof.
  exists (after_frame w). split; [apply animateParticles_run|].
  unfold after_frame, advanced, advance, ended, born. cbn [particles].
  split; intro H; rewrite H.
  - rewrite app_nil_r. split; [reflexivity | intro p; reflexivity].
  - split; [reflexivity | intro p; reflexivity].
Qed.

(** C5: a click on the inactive heart appends, before it returns, exactly
    80 particles to the collection and leaves those already there as they
    were; each new one sits at the emission origin (the centre of the
    anchor, which the click has just re-read) and has the first colour when
    its own draw is below 0.7, the second otherwise.  No frame is requested
    by the click. *)
Theorem C5_burst_on_activation (l : Layout num) (w : World num) :
  heartActive w = false ->
  exists w' new,
    activateHeart l w = Normal tt w'
    /\ heartActive w' = true
    /\ heartCenter w' = center (heartRect l)
    /\ requested w' = requested w
    /\ animationFrameId w' = animationFrameId w
    /\ particles w' = particles w ++ new
    /\ List.length new = 80
    /\ forall i, (i < 80)%nat ->
         exists p,
           nth_error new i = Some p
           /\ x p = vx (heartCenter w') /\ y p = vy (heartCenter w')
           /\ color p = (if random w (cursor w + 4 * i)%nat <? lit 0.7
                         then rose else gold)
           /\ p = fresh (random w) (cursor w + 4 * i + 1)
                        (vx (heartCenter w')) (vy (heartCenter w')) (color p).
Proof.
  intro Hoff.
  exists (after_click l w),
         (burst_particles (random w) (cursor w) (center (heartRect l)) 80).
  split; [apply activateHeart_run|].
  unfold after_click. rewrite Hoff.
  cbn [particles heartCenter heartActive requested animationFrameId].
  do 5 (split; [reflexivity|]).
  split; [apply burst_particles_length|].
  intros i Hi. eexists. split; [apply burst_particles_nth; exact Hi|].
  repeat split.
Qed.

(** C7: a frame of the active heart draws once; below 0.6 it appends one
    particle at the emission origin, coloured by a second draw against 0.9,
    to the collection it then advances, and otherwise appends none.  A
    frame of the inactive heart draws nothing and appends nothing. *)
Theorem C7_ambient_emission (w : World num) :
  exists w',
    animateParticles w = Normal tt w'
    /\ particles w'
       = filter (fun q => negb (ended w q)) (map (advance w) (particles w ++ born w))
    /\ (heartActive w = true ->
        (random w (cursor w) <? lit 0.6) = true ->
        born w
        = [fresh (random w) (2 + cursor w) (vx (heartCenter w)) (vy (heartCenter w))
                 (if random w (1 + cursor w)%nat <? lit 0.9 then rose else gold)]
        /\ cursor w' = (5 + cursor w)%nat)
    /\ (heartActive w = true ->
        (random w (cursor w) <? lit 0.6) = false ->
        born w = [] /\ cursor w' = (1 + cursor w)%nat)
    /\ (heartActive w = false ->
        born w = [] /\ cursor w' = cursor w).
Proof.
  exists (after_frame w). split; [apply animateParticles_run|].
  unfold after_frame, advanced, born, spawned, spawn_draws, pick.
  cbn [particles cursor].
  split; [reflexivity|].
  split; [intros H H'; rewrite H, H'; split; reflexivity|].
  split; [intros H H'; rewrite H, H'; split; reflexivity|].
  intros H; rewrite H; split; reflexivity.
Qed.

(** C10: a click on the active heart changes the flag and the page only:
    the collection, the emission origin, the stream of draws and the frame
    handle are as before, and the calls it makes are the four on the anchor
    and the button.  The frame that follows is the first to drain. *)
Theorem C10_deactivation_frame (l : Layout num) (w : World num) :
  heartActive w = true ->
  exists w',
    activateHeart l w = Normal tt w'
    /\ heartActive w' = false
    /\ particles w' = particles w
    /\ heartCenter w' = heartCenter w
    /\ cursor w' = cursor w
    /\ animationFrameId w' = animationFrameId w
    /\ requested w' = requested w
    /\ log w' = log w ++ off_calls
    /\ exists w'',
         animateParticles w' = Normal tt w''
         /\ particles w''
            = filter (fun q => negb (expired q)) (map drain (particles w)).
Proof.
  intro Hon. exists (after_click l w).
  split; [apply activateHeart_run|].
  unfold after_click. rewrite Hon.
  cbn [set_heartActive set_log particles heartCenter heartActive cursor
       animationFrameId requested log].
  repeat split.
  eexists. split; [apply animateParticles_run|].
  unfold after_frame, advanced, advance, ended, born.
  cbn [particles heartActive]. now rewrite app_nil_r.
Qed.

End Claims.

Section Events.
Context {num : Type} {N : Number num} {M : MathObject num}.

Lemma handle_run (e : Event num) (w : World num) :
  handle e w = Normal tt (after_event e w).
Proof.
  destruct e as [l| |l|l| | |]; cbn [handle after_event].
  - unfold onLoad.
    rewrite (bind_run _ _ _ _ _ (resizeCanvas_run _ _)).
    rewrite (bind_run _ _ _ _ _ (animateParticles_run _)).
    reflexivity.
  - apply animateParticles_run.
  - apply resizeCanvas_run.
  - apply activateHeart_run.
  - destruct w; unfold settleButton; run_prefix. now rewrite <- !app_assoc.
  - destruct w; unfold fadeLoadingScreen; run_prefix. now rewrite <- !app_assoc.
  - reflexivity.
Qed.

(** No sequence of events ends in a [TypeError]. *)
Lemma run_total (es : list (Event num)) (w : World num) :
  run es w = Normal tt (fold_left (fun w' e => after_event e w') es w).
Proof.
  revert w. induction es as [|e es IH]; intro w; cbn [run fold_left].
  - reflexivity.
  - rewrite (bind_run _ _ _ _ _ (handle_run e w)). apply IH.
Qed.

Lemma frames_run (k : nat) (w : World num) :
  frames k w = Normal tt (Nat.iter k after_frame w).
Proof.
  revert w. induction k as [|k IH]; intro w; cbn [frames].
  - reflexivity.
  - rewrite (bind_run _ _ _ _ _ (animateParticles_run w)), IH.
    now rewrite <- Nat.iter_succ_r.
Qed.

(** Every event leaves the stream of draws alone, and only a frame or a
    click on the inactive heart touches the collection. *)
Lemma after_event_random (e : Event num) (w : World num) :
  random (after_event e w) = random w.
Proof.
  destruct e; try reflexivity.
  cbn [after_event]. unfold after_click. now destruct (heartActive w).
Qed.

Lemma after_event_particles (e : Event num) (w : World num) :
  particles (after_event e w) = particles w
  \/ (exists w0, random w0 = random w /\ particles w0 = particles w
                 /\ particles (after_event e w) = particles (after_frame w0))
  \/ (exists k c, particles (after_event e w)
                  = particles w ++ burst_particles (random w) k c 80).
Proof.
  destruct e as [l| |l|l| | |]; cbn [after_event]; try (left; reflexivity).
  - right; left. exists (after_resize l w). repeat split.
  - right; left. exists w. repeat split.
  - unfold after_click. destruct (heartActive w).
    + left; reflexivity.
    + right; right. cbn [particles]. eauto.
Qed.

End Events.

(** ** Order arguments, on exact numbers *)

Section Exact.
Context {M : MathObject Q}.
Local Open Scope Q_scope.

Lemma leb_true (a b : Q) : leb a b = true -> a <= b.
Proof. intro H. now apply Qle_bool_iff. Qed.

Lemma leb_false (a b : Q) : leb a b = false -> b < a.
Proof.
  intro H. apply Qnot_le_lt. intro Hle.
  apply Qle_bool_iff in Hle. unfold leb, Q_Number in H. congruence.
Qed.

Lemma ltb_true (a b : Q) : ltb a b = true -> a < b.
Proof.
  unfold ltb, Q_Number. intro H. apply negb_true_iff in H. now apply leb_false.
Qed.

Lemma draws_between (rnd : nat -> Q) (k : nat) :
  draws_in_range rnd -> 0 <= rnd k < 1.
Proof.
  intro H. destruct (H k) as [H0 H1]. split.
  - now apply leb_true in H0.
  - now apply ltb_true in H1.
Qed.

Lemma shrunk_pos (n : nat) : 0 < shrunk n.
Proof. induction n as [|n IH]; simpl; lra. Qed.

Lemma shrunk_antitone (n m : nat) : (n <= m)%nat -> shrunk m <= shrunk n.
Proof.
  induction 1 as [|m Hle IH]; [lra|].
  simpl. pose proof (shrunk_pos m). lra.
Qed.

Lemma faded_antitone (n m : nat) : (n <= m)%nat -> faded m <= faded n.
Proof. induction 1 as [|m Hle IH]; simpl; lra. Qed.

Lemma shrunk_199 : 0.1 < shrunk 199.
Proof. vm_compute. reflexivity. Qed.

Lemma faded_200 : faded 200 <= 0.
Proof. vm_compute. discriminate. Qed.

Lemma dimmed_67 : dimmed 67 <= 0.
Proof. vm_compute. discriminate. Qed.

Lemma faded_le_1 (n : nat) : faded n <= 1.
Proof. apply (faded_antitone 0 n). lia. Qed.

(** A young particle that is still visible is larger than the threshold of
    the active branch: the opacity runs out first. *)
Lemma young_visible (p : Particle Q) : young p -> 0 < alpha p -> 0.1 < size p.
Proof.
  intros [n [Hs Ha]] Hpos.
  destruct (le_lt_dec 200 n) as [Hold|Hnew].
  - pose proof (faded_antitone 200 n Hold). pose proof faded_200. lra.
  - assert (Hn : (n <= 199)%nat) by lia.
    pose proof (shrunk_antitone n 199 Hn). pose proof shrunk_199. lra.
Qed.

Lemma young_size_pos (p : Particle Q) : young p -> 0 < size p.
Proof. intros [n [Hs _]]. pose proof (shrunk_pos n). lra. Qed.

Lemma young_alpha_le_1 (p : Particle Q) : young p -> alpha p <= 1.
Proof. intros [n [_ Ha]]. pose proof (faded_le_1 n). lra. Qed.

Lemma alpha_update (p : Particle Q) : alpha (update p) = alpha p - 0.005.
Proof. reflexivity. Qed.

Lemma size_update (p : Particle Q) : size (update p) = size p * 0.995.
Proof. reflexivity. Qed.

Lemma alpha_drain (p : Particle Q) : alpha (drain p) = alpha p - 0.01 - 0.005.
Proof. reflexivity. Qed.

Lemma size_drain (p : Particle Q) : size (drain p) = size p * 0.995.
Proof. reflexivity. Qed.

Lemma young_update (p : Particle Q) : young p -> young (update p).
Proof.
  intros [n [Hs Ha]]. exists (S n).
  rewrite alpha_update, size_update. simpl. split; lra.
Qed.

Lemma young_drain (p : Particle Q) : young p -> young (drain p).
Proof.
  intros [n [Hs Ha]]. exists (S n).
  rewrite alpha_drain, size_drain. simpl. split; lra.
Qed.

Lemma young_advance (w : World Q) (p : Particle Q) : young p -> young (advance w p).
Proof.
  unfold advance. destruct (heartActive w); [apply young_update | apply young_drain].
Qed.

Lemma young_fresh (rnd : nat -> Q) (k : nat) (x0 y0 : Q) (c : string) :
  draws_in_range rnd -> young (fresh rnd k x0 y0 c).
Proof.
  intro H. exists 0%nat. pose proof (draws_between rnd k H) as [H0 H1].
  unfold fresh. cbn [size alpha shrunk faded]. unfold add, mul, lit, Q_Number.
  split; lra.
Qed.

Lemma young_burst (rnd : nat -> Q) (c : Vec2 Q) (n : nat) :
  draws_in_range rnd ->
  forall k, Forall young (burst_particles rnd k c n).
Proof.
  intro H. induction n as [|n IH]; intro k; cbn [burst_particles].
  - constructor.
  - constructor; [now apply young_fresh | apply IH].
Qed.

Lemma young_born (w : World Q) :
  draws_in_range (random w) -> Forall young (born w).
Proof.
  intro H. unfold born, spawned.
  destruct (heartActive w); [|constructor].
  destruct (ltb _ _); constructor; [now apply young_fresh | constructor].
Qed.

Lemma young_after_frame (w : World Q) :
  draws_in_range (random w) -> Forall young (particles w) ->
  Forall young (particles (after_frame w)).
Proof.
  intros Hr Hy. unfold after_frame, advanced. cbn [particles].
  apply Forall_forall. intros q Hq.
  apply filter_In in Hq. destruct Hq as [Hq _].
  apply in_map_iff in Hq. destruct Hq as [p [<- Hp]].
  apply young_advance. apply in_app_or in Hp.
  destruct Hp as [Hp|Hp].
  - now apply (proj1 (Forall_forall _ _) Hy).
  - now apply (proj1 (Forall_forall _ _) (young_born w Hr)).
Qed.

(** The invariant of the page: the draws stay in range and every particle
    of the collection is young. *)
Lemma young_after_event (e : Event Q) (w : World Q) :
  draws_in_range (random w) -> Forall young (particles w) ->
  Forall young (particles (after_event e w)).
Proof.
  intros Hr Hy.
  destruct (after_event_particles e w) as [H|[[w0 [Hr0 [Hp0 H]]]|[k [c H]]]];
    rewrite H.
  - exact Hy.
  - apply young_after_frame; [now rewrite Hr0 | now rewrite Hp0].
  - apply Forall_app. split; [exact Hy | now apply young_burst].
Qed.

Lemma reachable_young (es : list (Event Q)) :
  forall w w', draws_in_range (random w) -> Forall young (particles w) ->
    run es w = Normal tt w' ->
    random w' = random w /\ Forall young (particles w').
Proof.
  induction es as [|e es IH]; intros w w' Hr Hy Hrun.
  - cbn [run] in Hrun. injection Hrun as <-. now split.
  - cbn [run] in Hrun. rewrite (bind_run _ _ _ _ _ (handle_run e w)) in Hrun.
    apply IH in Hrun.
    + rewrite after_event_random in Hrun. exact Hrun.
    + now rewrite after_event_random.
    + now apply young_after_event.
Qed.

Lemma init_young (rnd : nat -> Q) (es : list (Event Q)) (w : World Q) :
  draws_in_range rnd -> run es (init rnd) = Normal tt w ->
  draws_in_range (random w) /\ Forall young (particles w).
Proof.
  intros Hr Hrun.
  destruct (reachable_young es (init rnd) w Hr (Forall_nil _) Hrun) as [H1 H2].
  split; [now rewrite H1 | exact H2].
Qed.

End Exact.

Section ExactClaims.
Context {M : MathObject Q}.
Local Open Scope Q_scope.

Lemma not_culled (q : Particle Q) : culled q = false -> 0 < alpha q /\ 0.1 < size q.
Proof.
  unfold culled. intro H. apply orb_false_iff in H. destruct H as [Ha Hs].
  split; [exact (leb_false _ _ Ha) | exact (leb_false _ _ Hs)].
Qed.

Lemma not_expired (q : Particle Q) : expired q = false -> 0 < alpha q.
Proof. unfold expired. intro H. exact (leb_false _ _ H). Qed.

(** On a young particle the test of the inactive branch decides as the
    test of the active branch does. *)
Lemma expired_is_culled (q : Particle Q) : young q -> expired q = culled q.
Proof.
  intro Hy. unfold culled. fold (expired q).
  destruct (expired q) eqn:He; [reflexivity|].
  apply not_expired in He. pose proof (young_visible q Hy He) as Hs.
  cbn [orb]. symmetry. destruct (leb (size q) (lit 0.1)) eqn:Hl; [|reflexivity].
  apply leb_true in Hl. unfold lit, Q_Number in Hl. lra.
Qed.

Lemma young_advanced (w : World Q) :
  draws_in_range (random w) -> Forall young (particles w) ->
  Forall young (advanced w).
Proof.
  intros Hr Hy. unfold advanced. apply Forall_forall. intros q Hq.
  apply in_map_iff in Hq. destruct Hq as [p [<- Hp]].
  apply young_advance. apply in_app_or in Hp. destruct Hp as [Hp|Hp].
  - now apply (proj1 (Forall_forall _ _) Hy).
  - now apply (proj1 (Forall_forall _ _) (young_born w Hr)).
Qed.

(** C1: after a frame of the page, in whatever state the heart is, every
    particle of the collection has a positive opacity and a radius above
    0.1: the collection is what the frame advanced, less the particles with
    opacity at most 0 or radius at most 0.1. *)
Theorem C1_survivors_are_visible
        (rnd : nat -> Q) (es : list (Event Q)) (w : World Q) :
  draws_in_range rnd ->
  run es (init rnd) = Normal tt w ->
  exists w',
    animateParticles w = Normal tt w'
    /\ Forall (fun p => 0 < alpha p /\ 0.1 < size p) (particles w')
    /\ particles w'
       = filter (fun p => negb (culled p))
                (map (advance w) (particles w ++ born w)).
Proof.
  intros Hr Hrun.
  destruct (init_young rnd es w Hr Hrun) as [Hrw Hy].
  pose proof (young_advanced w Hrw Hy) as Hadv.
  exists (after_frame w). split; [apply animateParticles_run|].
  assert (Heq : particles (after_frame w)
                = filter (fun p => negb (culled p)) (advanced w)).
  { unfold after_frame, ended. cbn [particles].
    destruct (heartActive w); [reflexivity|].
    apply filter_ext_in. intros q Hq.
    rewrite (expired_is_culled q); [reflexivity|].
    exact (proj1 (Forall_forall _ _) Hadv q Hq). }
  split; [|exact Heq].
  rewrite Heq. apply Forall_forall. intros q Hq.
  apply filter_In in Hq. destruct Hq as [_ Hq].
  apply negb_true_iff in Hq. now apply not_culled.
Qed.

(** C9: a frame of the page leaves every particle it keeps, and the one it
    has just built, with a radius and an opacity no greater than before,
    whether the heart is active or not. *)
Theorem C9_radius_and_opacity_never_grow
        (rnd : nat -> Q) (es : list (Event Q)) (w : World Q) :
  draws_in_range rnd ->
  run es (init rnd) = Normal tt w ->
  exists w',
    animateParticles w = Normal tt w'
    /\ particles w'
       = filter (fun q => negb (ended w q))
                (map (advance w) (particles w ++ born w))
    /\ forall p, In p (particles w ++ born w) ->
         size (advance w p) <= size p /\ alpha (advance w p) <= alpha p.
Proof.
  intros Hr Hrun.
  destruct (init_young rnd es w Hr Hrun) as [Hrw Hy].
  exists (after_frame w). split; [apply animateParticles_run|].
  split; [reflexivity|].
  intros p Hp.
  assert (Hyp : young p).
  { apply in_app_or in Hp. destruct Hp as [Hp|Hp].
    - now apply (proj1 (Forall_forall _ _) Hy).
    - now apply (proj1 (Forall_forall _ _) (young_born w Hrw)). }
  pose proof (young_size_pos p Hyp) as Hs.
  unfold advance. destruct (heartActive w).
  - rewrite size_update, alpha_update. split; lra.
  - rewrite size_drain, alpha_drain. split; lra.
Qed.

Lemma drain_frame_particles (w : World Q) :
  heartActive w = false ->
  particles (after_frame w)
  = filter (fun q => negb (expired q)) (map drain (particles w)).
Proof.
  intro H. unfold after_frame, advanced, advance, ended, born. cbn [particles].
  rewrite H. now rewrite app_nil_r.
Qed.

Lemma iter_inactive (k : nat) (w : World Q) :
  heartActive w = false -> heartActive (Nat.iter k after_frame w) = false.
Proof. intro H. induction k as [|k IH]; [exact H | exact IH]. Qed.

Lemma dimmed_antitone (n m : nat) : (n <= m)%nat -> dimmed m <= dimmed n.
Proof. induction 1 as [|m Hle IH]; simpl; lra. Qed.

Lemma iter_dimmed (k : nat) (w : World Q) :
  heartActive w = false ->
  Forall (fun p => alpha p <= 1) (particles w) ->
  Forall (fun p => alpha p <= dimmed k) (particles (Nat.iter k after_frame w)).
Proof.
  intros Hoff H1. induction k as [|k IH]; [exact H1|].
  cbn [Nat.iter nat_rect].
  change (nat_rect _ w (fun _ => after_frame) k) with (Nat.iter k after_frame w).
  rewrite drain_frame_particles by now apply iter_inactive.
  apply Forall_forall. intros q Hq.
  apply filter_In in Hq. destruct Hq as [Hq _].
  apply in_map_iff in Hq. destruct Hq as [p [<- Hp]].
  pose proof (proj1 (Forall_forall _ _) IH p Hp) as Hp'. cbn beta in Hp'.
  rewrite alpha_drain. simpl. lra.
Qed.

Lemma iter_positive (k : nat) (w : World Q) :
  heartActive w = false ->
  Forall (fun p => 0 < alpha p) (particles (Nat.iter (S k) after_frame w)).
Proof.
  intro Hoff. cbn [Nat.iter nat_rect].
  change (nat_rect _ w (fun _ => after_frame) k) with (Nat.iter k after_frame w).
  rewrite drain_frame_particles by now apply iter_inactive.
  apply Forall_forall. intros q Hq.
  apply filter_In in Hq. destruct Hq as [_ Hq].
  apply negb_true_iff in Hq. now apply not_expired.
Qed.

(** C4, as amended: while the heart is inactive a frame never adds to the
    collection, the collection is empty after 67 frames at the latest, and
    an empty collection stays empty. *)
Theorem C4_drain_empties_the_collection
        (rnd : nat -> Q) (es : list (Event Q)) (w : World Q) (k : nat) :
  draws_in_range rnd ->
  run es (init rnd) = Normal tt w ->
  heartActive w = false ->
  exists w1 w2,
    frames k w = Normal tt w1
    /\ animateParticles w1 = Normal tt w2
    /\ heartActive w2 = false
    /\ (List.length (particles w2) <= List.length (particles w1))%nat
    /\ ((67 <= k)%nat -> particles w1 = [])
    /\ (particles w1 = [] -> particles w2 = []).
Proof.
  intros Hr Hrun Hoff.
  destruct (init_young rnd es w Hr Hrun) as [Hrw Hy].
  exists (Nat.iter k after_frame w), (after_frame (Nat.iter k after_frame w)).
  pose proof (iter_inactive k w Hoff) as Hk.
  split; [apply frames_run|]. split; [apply animateParticles_run|].
  split; [exact (iter_inactive (S k) w Hoff)|].
  rewrite (drain_frame_particles _ Hk).
  split; [|split].
  - eapply Nat.le_trans; [apply filter_length_le | now rewrite length_map].
  - intro H67. destruct k as [|k]; [lia|].
    assert (H1 : Forall (fun p => alpha p <= 1) (particles w)).
    { eapply Forall_impl; [|exact Hy]. exact young_alpha_le_1. }
    pose proof (iter_dimmed (S k) w Hoff H1) as Hd.
    pose proof (iter_positive k w Hoff) as Hp.
    destruct (particles (Nat.iter (S k) after_frame w)) as [|p ps]; [reflexivity|].
    exfalso. inversion Hd as [|? ? Hd1 _]. inversion Hp as [|? ? Hp1 _].
    pose proof (dimmed_antitone 67 (S k) H67). pose proof dimmed_67. lra.
  - intro He. rewrite He. reflexivity.
Qed.

End ExactClaims.

(** ** Construction and resizing *)

(** C6: the constructor never fails; it puts the particle at the position
    given, with opacity 1, gravity 0.003 and drag 0.99, a radius
    [r * 1.5 + 0.5], a speed [r' * 0.4 + 0.1] and a velocity of twice that
    speed along the angle [r'' * PI * 2], for three successive draws.  On
    exact numbers and draws in [0, 1) the radius lies in [0.5, 2), the speed
    in [0.1, 0.5) and the angle in [0, 2 PI), each of them the draw scaled
    by the width of its range and shifted to its lower end, which is how a
    uniform draw on [0, 1) becomes a uniform one there. *)
Theorem C6_spawn :
  (forall (num : Type) (N : Number num) (M : MathObject num)
          (x0 y0 : num) (c : string) (w : World num),
      exists p w',
        Particle_new x0 y0 c w = Normal p w'
        /\ x p = x0 /\ y p = y0 /\ color p = c
        /\ size p = (random w (cursor w) * lit 1.5 + lit 0.5)%js
        /\ speed p = (random w (S (cursor w)) * lit 0.4 + lit 0.1)%js
        /\ velocity p
           = (let angle := random w (S (S (cursor w))) * Math_PI * lit 2 in
              mkVec2 (Math_cos angle * speed p * lit 2)
                     (Math_sin angle * speed p * lit 2))%js
        /\ alpha p = lit 1 /\ gravity p = lit 0.003 /\ drag p = lit 0.99
        /\ particles w' = particles w /\ cursor w' = 3 + cursor w)
  /\ (forall (M : MathObject Q) (rnd : nat -> Q) (k : nat) (x0 y0 : Q) (c : string),
         draws_in_range rnd -> (0 < Math_PI)%Q ->
         let p := fresh rnd k x0 y0 c in
         (0.5 <= size p < 2.0
          /\ 0.1 <= speed p < 0.5
          /\ 0 <= rnd (S (S k)) * Math_PI * 2 < 2 * Math_PI
          /\ size p == 0.5 + (2.0 - 0.5) * rnd k
          /\ speed p == 0.1 + (0.5 - 0.1) * rnd (S k)
          /\ rnd (S (S k)) * Math_PI * 2 == 0 + (2 * Math_PI - 0) * rnd (S (S k)))%Q).
Proof.
  split.
  - intros num N M x0 y0 c w.
    exists (fresh (random w) (cursor w) x0 y0 c), (set_cursor (3 + cursor w) w).
    split; [apply Particle_new_run|].
    unfold fresh. cbn [x y color size speed velocity alpha gravity drag].
    repeat split.
  - intros M rnd k x0 y0 c Hr Hpi p.
    pose proof (draws_between rnd k Hr) as [H0 H1].
    pose proof (draws_between rnd (S k) Hr) as [H2 H3].
    pose proof (draws_between rnd (S (S k)) Hr) as [H4 H5].
    subst p. unfold fresh. cbn [size speed].
    unfold add, mul, lit, Q_Number.
    repeat split; try lra; try nra.
Qed.

(** C8: [resizeCanvas] sets the emission origin to the centre of the
    anchor's rectangle, [(left + width / 2, top + height / 2)], and leaves
    the collection and the flag alone; with the rectangle (100, 50, 40, 40)
    the origin is (120, 70), in binary64 and on exact numbers. *)
Theorem C8_origin_is_anchor_centre :
  (forall (num : Type) (N : Number num) (M : MathObject num)
          (l : Layout num) (w : World num),
      exists w',
        resizeCanvas l w = Normal tt w'
        /\ heartCenter w'
           = (mkVec2 (left (heartRect l) + width (heartRect l) / lit 2)
                     (top (heartRect l) + height (heartRect l) / lit 2))%js
        /\ particles w' = particles w
        /\ heartActive w' = heartActive w)
  /\ (forall (M : MathObject float) (dpr : float) (cr : Rect float) (w : World float),
         heartCenter
           (world_of (resizeCanvas
                        (mkLayout dpr cr (mkRect (lit 100) (lit 50) (lit 40) (lit 40)))
                        w))
         = mkVec2 (lit 120) (lit 70))
  /\ (forall (M : MathObject Q) (dpr : Q) (cr : Rect Q) (w : World Q),
         let c := heartCenter
                    (world_of (resizeCanvas (mkLayout dpr cr (mkRect 100 50 40 40)%Q) w)) in
         (vx c == 120 /\ vy c == 70)%Q).
Proof.
  split; [|split].
  - intros num N M l w. exists (after_resize l w).
    split; [apply resizeCanvas_run|]. repeat split.
  - intros M dpr cr w. rewrite resizeCanvas_run. reflexivity.
  - intros M dpr cr w c. subst c. rewrite resizeCanvas_run.
    split; reflexivity.
Qed.

(** ** Further properties of the handlers *)

Section Handlers.
Context {num : Type} {N : Number num} {M : MathObject num}.
Local Open Scope js_scope.


(** No sequence of events of the page ends in a [TypeError], from whatever
    world it starts: the loops never read past the end of the collection
    they shorten.  The stream of draws is never replaced and its cursor
    never moves back. *)
Theorem no_event_throws (es : list (Event num)) (w : World num) :
  exists w',
    run es w = Normal tt w'
    /\ random w' = random w
    /\ cursor w <= cursor w'.
Proof.
  revert w. induction es as [|e es IH]; intro w.
  - exists w. repeat split. apply Nat.le_refl.
  - destruct (IH (after_event e w)) as [w' [Hrun [Hr Hc]]].
    exists w'. cbn [run]. rewrite (bind_run _ _ _ _ _ (handle_run e w)).
    split; [exact Hrun|]. split; [now rewrite Hr, after_event_random|].
    eapply Nat.le_trans; [|exact Hc].
    destruct e as [l| |l|l| | |]; cbn [after_event]; try apply Nat.le_refl.
    + unfold after_frame, after_resize. cbn [cursor heartActive set_log
        set_heartCenter random].
      destruct (heartActive w); [apply Nat.le_add_l | apply Nat.le_refl].
    + unfold after_frame. cbn [cursor].
      destruct (heartActive w); [apply Nat.le_add_l | apply Nat.le_refl].
    + unfold after_click. destruct (heartActive w); cbn [cursor set_heartActive set_log].
      * apply Nat.le_refl.
      * apply Nat.le_add_l.
Qed.

Lemma after_event_requested (e : Event num) (w : World num) :
  requested (after_event e w)
  = ((if runs_frame e then 1 else 0) + requested w)%nat
  /\ animationFrameId (after_event e w)
     = (if runs_frame e then Some (S (requested w)) else animationFrameId w).
Proof.
  destruct e as [l| |l|l| | |]; cbn [after_event runs_frame]; try (split; reflexivity).
  unfold after_click. destruct (heartActive w); split; reflexivity.
Qed.

(** Only the listener of [load] and a frame request a frame, one each: a
    click or a resize never starts a second loop.  The handle the script
    holds is the last one the host gave out. *)
Theorem one_frame_requested_per_frame (es : list (Event num)) (w : World num) :
  exists w',
    run es w = Normal tt w'
    /\ requested w' = (List.length (filter runs_frame es) + requested w)%nat
    /\ animationFrameId w'
       = (if existsb runs_frame es then Some (requested w') else animationFrameId w).
Proof.
  revert w. induction es as [|e es IH]; intro w.
  - exists w. repeat split.
  - destruct (IH (after_event e w)) as [w' [Hrun [Hq Ha]]].
    exists w'. cbn [run]. rewrite (bind_run _ _ _ _ _ (handle_run e w)).
    split; [exact Hrun|].
    destruct (after_event_requested e w) as [Hq1 Ha1].
    cbn [filter existsb].
    destruct (runs_frame e); cbn [orb List.length].
    + split; [lia|].
      destruct (existsb runs_frame es) eqn:He; [exact Ha|].
      assert (Hn : List.length (filter runs_frame es) = 0).
      { clear -He. induction es as [|a l IHl]; [reflexivity|].
        cbn [existsb] in He. apply orb_false_iff in He. destruct He as [Ha Hl].
        cbn [filter]. rewrite Ha. now apply IHl. }
      rewrite Ha, Ha1. f_equal. lia.
    + split; [lia|]. rewrite Ha, Ha1. reflexivity.
Qed.

Lemma fresh_well_made (rnd : nat -> num) (k : nat) (x0 y0 r t : num) :
  well_made (fresh rnd k x0 y0 (pick r t)).
Proof.
  unfold well_made, fresh, pick. cbn [gravity drag color].
  repeat split. destruct (r <? t); [left | right]; reflexivity.
Qed.

Lemma advance_keeps (w : World num) (p : Particle num) :
  gravity (advance w p) = gravity p
  /\ drag (advance w p) = drag p
  /\ color (advance w p) = color p
  /\ speed (advance w p) = speed p.
Proof. unfold advance. destruct (heartActive w); repeat split. Qed.

Lemma burst_well_made (rnd : nat -> num) (c : Vec2 num) (n : nat) :
  forall k, Forall well_made (burst_particles rnd k c n).
Proof.
  induction n as [|n IH]; intro k; cbn [burst_particles]; constructor.
  - apply fresh_well_made.
  - apply IH.
Qed.

Lemma after_frame_well_made (w : World num) :
  Forall well_made (particles w) -> Forall well_made (particles (after_frame w)).
Proof.
  intro H. unfold after_frame, advanced. cbn [particles].
  apply Forall_forall. intros q Hq.
  apply filter_In in Hq. destruct Hq as [Hq _].
  apply in_map_iff in Hq. destruct Hq as [p [<- Hp]].
  assert (Hwp : well_made p).
  { apply in_app_or in Hp. destruct Hp as [Hp|Hp].
    - now apply (proj1 (Forall_forall _ _) H).
    - unfold born, spawned in Hp. destruct (heartActive w); [|destruct Hp].
      destruct (_ <? _); [|destruct Hp].
      destruct Hp as [<-|[]]. apply fresh_well_made. }
  destruct (advance_keeps w p) as [Hg [Hd [Hc _]]].
  unfold well_made. rewrite Hg, Hd, Hc. exact Hwp.
Qed.

(** Whatever the events, every particle of the collection has the gravity
    0.003 and the drag 0.99 of the constructor and one of the two colours:
    a frame changes neither, nor the colour or the speed of a particle. *)
Theorem particles_stay_well_made (es : list (Event num)) (w w' : World num) :
  Forall well_made (particles w) ->
  run es w = Normal tt w' ->
  Forall well_made (particles w')
  /\ forall p, gravity (advance w' p) = gravity p
               /\ drag (advance w' p) = drag p
               /\ color (advance w' p) = color p
               /\ speed (advance w' p) = speed p.
Proof.
  intros H Hrun. split; [|intro p; apply advance_keeps].
  revert w H Hrun. induction es as [|e es IH]; intros w H Hrun.
  - cbn [run] in Hrun. injection Hrun as <-. exact H.
  - cbn [run] in Hrun. rewrite (bind_run _ _ _ _ _ (handle_run e w)) in Hrun.
    apply (IH (after_event e w)); [|exact Hrun].
    destruct (after_event_particles e w) as [He|[[w0 [_ [Hp0 He]]]|[k [c He]]]];
      rewrite He.
    + exact H.
    + apply after_frame_well_made. now rewrite Hp0.
    + apply Forall_app. split; [exact H | apply burst_well_made].
Qed.

(** Three clicks with no frame between them, on the inactive heart: the
    first and the third each append 80 particles at the centre of the
    anchor as it is then, the second removes none, so the collection is 160
    longer and the heart is active. *)
Theorem bursts_accumulate (l1 l2 l3 : Layout num) (w : World num) :
  heartActive w = false ->
  exists w' b1 b3,
    run [Click l1; Click l2; Click l3] w = Normal tt w'
    /\ heartActive w' = true
    /\ particles w' = particles w ++ b1 ++ b3
    /\ List.length b1 = 80 /\ List.length b3 = 80
    /\ Forall (fun p => x p = vx (center (heartRect l1))
                        /\ y p = vy (center (heartRect l1))) b1
    /\ Forall (fun p => x p = vx (center (heartRect l3))
                        /\ y p = vy (center (heartRect l3))) b3
    /\ cursor w' = (640 + cursor w)%nat.
Proof.
  intro Hoff.
  assert (Hat : forall rnd c n k,
             Forall (fun p => x p = vx c /\ y p = vy c) (burst_particles rnd k c n)).
  { intros rnd c n. induction n as [|n IH]; intro k; cbn [burst_particles];
      constructor; [split; reflexivity | apply IH]. }
  exists (after_click l3 (after_click l2 (after_click l1 w))),
         (burst_particles (random w) (cursor w) (center (heartRect l1)) 80),
         (burst_particles (random w) (320 + cursor w)%nat (center (heartRect l3)) 80).
  split.
  - cbn [run handle].
    rewrite (bind_run _ _ _ _ _ (activateHeart_run l1 w)).
    rewrite (bind_run _ _ _ _ _ (activateHeart_run l2 _)).
    rewrite (bind_run _ _ _ _ _ (activateHeart_run l3 _)). reflexivity.
  - unfold after_click. rewrite Hoff.
    cbn [heartActive set_heartActive set_log particles random cursor].
    rewrite <- app_assoc.
    split; [reflexivity|]. split; [reflexivity|].
    split; [apply burst_particles_length|].
    split; [apply burst_particles_length|].
    split; [apply Hat|]. split; [apply Hat|]. reflexivity.
Qed.

End Handlers.

Section Resized.
Context {num : Type} {N : Number num} {M : MathObject num}.

(** A resize moves the emission origin and nothing else: the frame that
    follows advances the particles already there from where they are, and
    what it spawns starts at the centre of the anchor as the resize found
    it. *)
Theorem resize_moves_only_the_origin (l : Layout num) (w : World num) :
  exists w',
    run [Resize l; Frame] w = Normal tt w'
    /\ heartCenter w' = center (heartRect l)
    /\ particles w'
       = filter (fun q => negb (ended w q))
                (map (advance w)
                     (particles w
                      ++ (if heartActive w
                          then spawned (random w) (cursor w) (center (heartRect l))
                          else [])))
    /\ Forall (fun p => x p = vx (center (heartRect l))
                        /\ y p = vy (center (heartRect l)))
              (spawned (random w) (cursor w) (center (heartRect l))).
Proof.
  exists (after_frame (after_resize l w)). split.
  - cbn [run handle].
    rewrite (bind_run _ _ _ _ _ (resizeCanvas_run l w)).
    rewrite (bind_run _ _ _ _ _ (animateParticles_run _)). reflexivity.
  - split; [reflexivity|]. split; [reflexivity|].
    unfold spawned. destruct (ltb _ _); repeat constructor.
Qed.

End Resized.

(** ** Lifetimes and drawing, on exact numbers *)

Section ExactHandlers.
Context {M : MathObject Q}.
Local Open Scope Q_scope.

Lemma alpha_iter_update (n : nat) (p : Particle Q) :
  alpha p = 1 -> alpha (Nat.iter n update p) = faded n.
Proof.
  intro H. induction n as [|n IH]; [exact H|].
  cbn [Nat.iter nat_rect faded].
  change (nat_rect _ p (fun _ => update) n) with (Nat.iter n update p).
  now rewrite alpha_update, IH.
Qed.

Lemma alpha_iter_drain (n : nat) (p : Particle Q) :
  alpha p = 1 -> alpha (Nat.iter n drain p) = dimmed n.
Proof.
  intro H. induction n as [|n IH]; [exact H|].
  cbn [Nat.iter nat_rect dimmed].
  change (nat_rect _ p (fun _ => drain) n) with (Nat.iter n drain p).
  now rewrite alpha_drain, IH.
Qed.

Lemma size_iter_update (n : nat) (p : Particle Q) :
  0.5 <= size p -> shrunk n <= size (Nat.iter n update p).
Proof.
  intro H. induction n as [|n IH]; [exact H|].
  cbn [Nat.iter nat_rect shrunk].
  change (nat_rect _ p (fun _ => update) n) with (Nat.iter n update p).
  rewrite size_update. lra.
Qed.

Lemma leb_lit_true (a q : Q) : leb a (lit q) = true -> a <= q.
Proof. exact (leb_true a q). Qed.

Lemma faded_199 : 0 < faded 199.
Proof. vm_compute. reflexivity. Qed.

Lemma dimmed_66 : 0 < dimmed 66.
Proof. vm_compute. reflexivity. Qed.

Lemma fresh_size (rnd : nat -> Q) (k : nat) (x0 y0 : Q) (c : string) :
  draws_in_range rnd -> 0.5 <= size (fresh rnd k x0 y0 c).
Proof.
  intro H. pose proof (draws_between rnd k H) as [H0 H1].
  unfold fresh. cbn [size]. unfold add, mul, lit, Q_Number. lra.
Qed.

(** Under the active heart a particle passes the test of the loop after
    each of its first 199 steps and fails it from the 200th on, whatever
    its draws: it is the opacity that ends it, never the radius. *)
Theorem ambient_lifetime
        (rnd : nat -> Q) (k : nat) (x0 y0 : Q) (c : string) (n : nat) :
  draws_in_range rnd ->
  (culled (Nat.iter n update (fresh rnd k x0 y0 c)) = true <-> (200 <= n)%nat)
  /\ ((n < 200)%nat -> 0.1 < size (Nat.iter n update (fresh rnd k x0 y0 c))).
Proof.
  intro Hr. set (p := fresh rnd k x0 y0 c).
  assert (Ha : alpha (Nat.iter n update p) = faded n)
    by (apply alpha_iter_update; reflexivity).
  pose proof (size_iter_update n p (fresh_size rnd k x0 y0 c Hr)) as Hs.
  assert (Hsmall : (n < 200)%nat -> 0.1 < size (Nat.iter n update p)).
  { intro Hn. assert (Hn' : (n <= 199)%nat) by lia.
    pose proof (shrunk_antitone n 199 Hn'). pose proof shrunk_199. lra. }
  split; [|exact Hsmall]. split.
  - intro Hc. destruct (le_lt_dec 200 n) as [Hge|Hlt]; [exact Hge|exfalso].
    assert (Hn' : (n <= 199)%nat) by lia.
    pose proof (faded_antitone n 199 Hn'). pose proof faded_199.
    pose proof (Hsmall Hlt).
    unfold culled in Hc. apply orb_true_iff in Hc. destruct Hc as [Hc|Hc];
      apply leb_lit_true in Hc; rewrite ?Ha in Hc; lra.
  - intro Hge. unfold culled. apply orb_true_iff. left.
    apply Qle_bool_iff. rewrite Ha.
    pose proof (faded_antitone 200 n Hge). pose proof faded_200.
    unfold lit, Q_Number. lra.
Qed.

(** Under the inactive heart a particle that starts fully opaque passes
    the test of the loop after each of its first 66 steps and fails it
    from the 67th on. *)
Theorem drain_lifetime
        (rnd : nat -> Q) (k : nat) (x0 y0 : Q) (c : string) (n : nat) :
  expired (Nat.iter n drain (fresh rnd k x0 y0 c)) = true <-> (67 <= n)%nat.
Proof.
  set (p := fresh rnd k x0 y0 c).
  assert (Ha : alpha (Nat.iter n drain p) = dimmed n)
    by (apply alpha_iter_drain; reflexivity).
  unfold expired. rewrite Ha. split.
  - intro Hc. destruct (le_lt_dec 67 n) as [Hge|Hlt]; [exact Hge|exfalso].
    assert (Hn' : (n <= 66)%nat) by lia.
    pose proof (dimmed_antitone n 66 Hn'). pose proof dimmed_66.
    apply leb_lit_true in Hc. lra.
  - intro Hge. apply Qle_bool_iff.
    pose proof (dimmed_antitone 67 n Hge). pose proof dimmed_67.
    unfold lit, Q_Number. lra.
Qed.

Lemma draw_calls_safe (p : Particle Q) : young p -> Forall safe_call (draw_calls p).
Proof.
  intro Hy. pose proof (young_alpha_le_1 p Hy) as Ha.
  pose proof (young_size_pos p Hy) as Hs.
  unfold draw_calls. repeat constructor; cbn [safe_call]; try exact Hs.
  - unfold Math_max, lit, Q_Number.
    destruct (Qle_bool 0 (alpha p)) eqn:H0; [now apply Qle_bool_iff in H0 | lra].
  - unfold Math_max, lit, Q_Number.
    destruct (Qle_bool 0 (alpha p)) eqn:H0; [exact Ha | lra].
Qed.

Lemma after_frame_log_safe (w : World Q) :
  draws_in_range (random w) -> Forall young (particles w) ->
  Forall safe_call (log w) -> Forall safe_call (log (after_frame w)).
Proof.
  intros Hr Hy Hl. unfold after_frame. cbn [log].
  apply Forall_app. split; [exact Hl|].
  apply Forall_app. split; [repeat constructor|].
  apply Forall_flat_map. apply Forall_rev.
  eapply Forall_impl; [|exact (young_advanced w Hr Hy)].
  exact draw_calls_safe.
Qed.

Lemma after_event_log_safe (e : Event Q) (w : World Q) :
  draws_in_range (random w) -> Forall young (particles w) ->
  Forall safe_call (log w) -> Forall safe_call (log (after_event e w)).
Proof.
  intros Hr Hy Hl.
  assert (Hres : forall l, Forall safe_call (log (after_resize l w))).
  { intro l. unfold after_resize, resize_calls. cbn [log set_heartCenter set_log].
    apply Forall_app. split; [exact Hl | repeat constructor]. }
  destruct e as [l| |l|l| | |]; cbn [after_event].
  - cbn [log set_log]. apply Forall_app. split; [|repeat constructor].
    apply after_frame_log_safe; [exact Hr | exact Hy | apply Hres].
  - now apply after_frame_log_safe.
  - apply Hres.
  - unfold after_click, on_calls, off_calls, resize_calls.
    destruct (heartActive w); cbn [log set_heartActive set_log];
      apply Forall_app; (split; [exact Hl | repeat constructor]).
  - cbn [log set_log]. apply Forall_app. split; [exact Hl | repeat constructor].
  - cbn [log set_log]. apply Forall_app. split; [exact Hl | repeat constructor].
  - cbn [log set_log]. apply Forall_app. split; [exact Hl | repeat constructor].
Qed.

(** Whatever the events of the page, every call of [draw] it has made set
    an opacity between 0 and 1 and drew an arc of positive radius. *)
Theorem every_draw_is_safe (rnd : nat -> Q) (es : list (Event Q)) (w : World Q) :
  draws_in_range rnd ->
  run es (init rnd) = Normal tt w ->
  Forall safe_call (log w).
Proof.
  intros Hr Hrun.
  assert (Hgen : forall es w0 w1,
             draws_in_range (random w0) -> Forall young (particles w0) ->
             Forall safe_call (log w0) -> run es w0 = Normal tt w1 ->
             Forall safe_call (log w1)).
  { clear. induction es as [|e es IH]; intros w0 w1 Hr Hy Hl Hrun.
    - cbn [run] in Hrun. injection Hrun as <-. exact Hl.
    - cbn [run] in Hrun. rewrite (bind_run _ _ _ _ _ (handle_run e w0)) in Hrun.
      apply (IH (after_event e w0) w1).
      + now rewrite after_event_random.
      + now apply young_after_event.
      + now apply after_event_log_safe.
      + exact Hrun. }
  apply (Hgen es (init rnd) w); [exact Hr | constructor | constructor | exact Hrun].
Qed.

End ExactHandlers.

(** The factor [resizeCanvas] scales the canvas by is the device pixel
    ratio when that is a number other than 0, and 1 otherwise: in binary64
    it is never 0 and never NaN, on exact numbers never 0. *)
Theorem canvas_scale_is_usable :
  (forall (M : MathObject float) (l : Layout float) (w : World float),
      exists w' s,
        resizeCanvas l w = Normal tt w'
        /\ log w'
           = log w ++ [CanvasSize (width (canvasRect l) * s) (height (canvasRect l) * s);
                       Scale s s;
                       CanvasStyleSize (width (canvasRect l)) (height (canvasRect l))]%js
        /\ PrimFloat.eqb s PrimFloat.zero = false
        /\ PrimFloat.eqb s s = true
        /\ (float_truthy (devicePixelRatio l) = true -> s = devicePixelRatio l)
        /\ (float_truthy (devicePixelRatio l) = false -> s = lit 1))
  /\ (forall (M : MathObject Q) (l : Layout Q) (w : World Q),
         exists w' s,
           resizeCanvas l w = Normal tt w'
           /\ log w'
              = log w ++ [CanvasSize (width (canvasRect l) * s) (height (canvasRect l) * s);
                          Scale s s;
                          CanvasStyleSize (width (canvasRect l)) (height (canvasRect l))]%js
           /\ ~ (s == 0)%Q
           /\ (~ (devicePixelRatio l == 0)%Q -> s = devicePixelRatio l)).
Proof.
  split.
  - intros M l w.
    exists (after_resize l w),
           (if float_truthy (devicePixelRatio l) then devicePixelRatio l else lit 1).
    split; [apply resizeCanvas_run|]. split; [reflexivity|].
    destruct (float_truthy (devicePixelRatio l)) eqn:Ht.
    + unfold float_truthy in Ht. apply andb_true_iff in Ht. destruct Ht as [H0 H1].
      apply negb_true_iff in H0. repeat split; try assumption. discriminate.
    + repeat split; try reflexivity. discriminate.
  - intros M l w.
    exists (after_resize l w),
           (if negb (Qeq_bool (devicePixelRatio l) 0) then devicePixelRatio l else 1%Q).
    split; [apply resizeCanvas_run|]. split; [reflexivity|].
    destruct (Qeq_bool (devicePixelRatio l) 0) eqn:Ht; cbn [negb].
    + apply Qeq_bool_iff in Ht. split; [discriminate | intro H; contradiction].
    + split; [|reflexivity]. intro H. apply Qeq_bool_iff in H. congruence.
Qed.

(** ** Witnesses and counterexamples *)

#[local] Existing Instance series_Math.

Lemma run_reaches {num : Type} {N : Number num} {M : MathObject num}
      (es : list (Event num)) (w : World num) :
  run es w = Normal tt (world_of (run es w)).
Proof. rewrite run_total. reflexivity. Qed.

Lemma noughts_in_range : draws_in_range noughts.
Proof. intro k. split; reflexivity. Qed.

Lemma exact_draining_inactive : heartActive exact_draining = false.
Proof. vm_compute. reflexivity. Qed.

Lemma float_neq (a b : float) :
  PrimFloat.eqb a b = false -> PrimFloat.eqb a a = true -> a <> b.
Proof. intros Hab Haa Heq. rewrite <- Heq in Hab. congruence. Qed.

(** The test of the inactive branch does not look at the radius: on a
    collection the page never builds, a particle below the threshold
    stays. *)
Example inactive_branch_ignores_the_radius :
  List.length (particles (world_of (animateParticles (M := series_Math) dust))) = 1
  /\ forallb (fun p => size p <=? lit 0.1)%js
             (particles (world_of (animateParticles (M := series_Math) dust)))
     = true.
Proof. vm_compute. split; reflexivity. Qed.

(** C1 at a run of the page: loaded, clicked, one frame, clicked again. *)
Lemma C1_witness :
  draws_in_range noughts
  /\ run (M := series_Math) clicks (init noughts) = Normal tt exact_draining
  /\ exists w',
       animateParticles (M := series_Math) exact_draining = Normal tt w'
       /\ Forall (fun p => (0 < alpha p /\ 0.1 < size p)%Q) (particles w').
Proof.
  split; [exact noughts_in_range|].
  split; [exact (run_reaches clicks (init noughts))|].
  destruct (C1_survivors_are_visible (M := series_Math) noughts clicks
              exact_draining noughts_in_range (run_reaches clicks (init noughts)))
    as [w' [H1 [H2 _]]].
  exists w'. split; assumption.
Defined.

(** C9 at the same run. *)
Lemma C9_witness :
  draws_in_range noughts
  /\ run (M := series_Math) clicks (init noughts) = Normal tt exact_draining
  /\ exists w',
       animateParticles (M := series_Math) exact_draining = Normal tt w'
       /\ forall p, In p (particles exact_draining ++ born exact_draining) ->
            (size (advance exact_draining p) <= size p
             /\ alpha (advance exact_draining p) <= alpha p)%Q.
Proof.
  split; [exact noughts_in_range|].
  split; [exact (run_reaches clicks (init noughts))|].
  destruct (C9_radius_and_opacity_never_grow (M := series_Math) noughts clicks
              exact_draining noughts_in_range (run_reaches clicks (init noughts)))
    as [w' [H1 [_ H2]]].
  exists w'. split; assumption.
Defined.

(** C4, as amended, at the same run and 67 frames. *)
Lemma C4_witness :
  draws_in_range noughts
  /\ run (M := series_Math) clicks (init noughts) = Normal tt exact_draining
  /\ heartActive exact_draining = false
  /\ exists w1,
       frames (M := series_Math) 67 exact_draining = Normal tt w1
       /\ particles w1 = [].
Proof.
  split; [exact noughts_in_range|].
  split; [exact (run_reaches clicks (init noughts))|].
  split; [exact exact_draining_inactive|].
  destruct (C4_drain_empties_the_collection (M := series_Math) noughts clicks
              exact_draining 67 noughts_in_range
              (run_reaches clicks (init noughts)) exact_draining_inactive)
    as [w1 [w2 [H1 [_ [_ [_ [H2 _]]]]]]].
  exists w1. split; [exact H1 | apply H2; lia].
Defined.

(** C4 as stated fails: the frame after the second click keeps all 81
    particles of the collection. *)
Lemma C4_counterexample :
  heartActive draining = false
  /\ particles draining <> []
  /\ exists w',
       animateParticles (M := series_Math) draining = Normal tt w'
       /\ List.length (particles draining) = 81
       /\ List.length (particles w') = 81
       /\ ~ (List.length (particles w') < List.length (particles draining)).
Proof.
  split; [vm_compute; reflexivity|].
  split; [vm_compute; discriminate|].
  exists (after_frame draining).
  split; [apply animateParticles_run|].
  assert (H1 : List.length (particles draining) = 81) by (vm_compute; reflexivity).
  assert (H2 : List.length (particles (after_frame (M := series_Math) draining)) = 81)
    by (vm_compute; reflexivity).
  split; [exact H1|]. split; [exact H2|]. rewrite H1, H2. lia.
Qed.

(** C2 as stated fails: the frame after the second click takes every
    opacity from [1 - 0.005] to [1 - 0.005 - 0.01 - 0.005], which is not
    [1 - 0.005 - 0.01]. *)
Lemma C2_counterexample :
  heartActive draining = false
  /\ map alpha (particles draining) = repeat (lit 1 - lit 0.005)%js 81
  /\ exists w',
       animateParticles (M := series_Math) draining = Normal tt w'
       /\ map alpha (particles w')
          = repeat (lit 1 - lit 0.005 - lit 0.01 - lit 0.005)%js 81
       /\ (lit 1 - lit 0.005 - lit 0.01 - lit 0.005)%js
          <> (lit 1 - lit 0.005 - lit 0.01 : float)%js.
Proof.
  split; [vm_compute; reflexivity|].
  split; [vm_compute; reflexivity|].
  exists (after_frame draining).
  split; [apply animateParticles_run|].
  split; [vm_compute; reflexivity|].
  apply float_neq; vm_compute; reflexivity.
Qed.

(** C5 at the loaded page. *)
Lemma C5_witness :
  heartActive loaded = false
  /\ exists w' new,
       activateHeart (M := series_Math) page loaded = Normal tt w'
       /\ heartActive w' = true
       /\ particles w' = particles loaded ++ new
       /\ List.length new = 80.
Proof.
  split; [vm_compute; reflexivity|].
  destruct (C5_burst_on_activation (M := series_Math) page loaded)
    as [w' [new [H1 [H2 [_ [_ [_ [H3 [H4 _]]]]]]]]]; [vm_compute; reflexivity|].
  exists w', new. repeat split; assumption.
Defined.

(** C10 at the page one frame after the first click. *)
Lemma C10_witness :
  heartActive glowing = true
  /\ exists w',
       activateHeart (M := series_Math) page glowing = Normal tt w'
       /\ heartActive w' = false
       /\ particles w' = particles glowing.
Proof.
  split; [vm_compute; reflexivity|].
  destruct (C10_deactivation_frame (M := series_Math) page glowing)
    as [w' [H1 [H2 [H3 _]]]]; [vm_compute; reflexivity|].
  exists w'. repeat split; assumption.
Defined.

(** C6 on exact numbers, every draw 0. *)
Lemma C6_witness :
  draws_in_range noughts
  /\ (0 < Math_PI (MathObject := series_Math))%Q
  /\ (0.5 <= size (fresh (M := series_Math) noughts 0 100 50 rose) < 2.0)%Q.
Proof.
  split; [exact noughts_in_range|].
  split; [vm_compute; reflexivity|].
  exact (proj1 (proj2 C6_spawn series_Math noughts 0%nat 100%Q 50%Q rose
                      noughts_in_range eq_refl)).
Defined.

(** ** Witnesses of the further properties *)

Lemma well_made_witness :
  Forall well_made (particles (init halves))
  /\ run [Load page; Click page; Frame] (init halves) = Normal tt glowing
  /\ Forall well_made (particles glowing).
Proof.
  split; [constructor|].
  split; [exact (run_reaches _ _)|].
  exact (proj1 (particles_stay_well_made [Load page; Click page; Frame]
                  (init halves) glowing (Forall_nil _) (run_reaches _ _))).
Defined.

Lemma bursts_witness :
  heartActive loaded = false
  /\ exists w' b1 b3,
       run [Click page; Click page; Click page] loaded = Normal tt w'
       /\ particles w' = particles loaded ++ b1 ++ b3
       /\ List.length b1 = 80 /\ List.length b3 = 80.
Proof.
  split; [vm_compute; reflexivity|].
  destruct (bursts_accumulate page page page loaded)
    as [w' [b1 [b3 [H1 [_ [H2 [H3 [H4 _]]]]]]]]; [vm_compute; reflexivity|].
  exists w', b1, b3. repeat split; assumption.
Defined.

Lemma ambient_lifetime_witness :
  draws_in_range noughts
  /\ (culled (Nat.iter 200 update (fresh noughts 0 100%Q 50%Q rose)) = true
      <-> 200 <= 200).
Proof.
  split; [exact noughts_in_range|].
  exact (proj1 (ambient_lifetime noughts 0 100%Q 50%Q rose 200 noughts_in_range)).
Defined.

Lemma every_draw_witness :
  draws_in_range noughts
  /\ run clicks (init noughts) = Normal tt exact_draining
  /\ Forall safe_call (log exact_draining).
Proof.
  split; [exact noughts_in_range|].
  split; [exact (run_reaches clicks (init noughts))|].
  exact (every_draw_is_safe noughts clicks exact_draining noughts_in_range
           (run_reaches clicks (init noughts))).
Defined.
